(** * Statement field extractor: a shallow embedding of [extract_no_llm.py]
      and [scripts/decrypt_pdf.py], with the properties of its specification.

    Conventions of the model.
    - A Python [str] is the [string] of the bytes of its UTF-8 encoding, as a
      string literal of this file is: an ASCII character is one [ascii], the
      en dash is the three bytes 226 128 147.  The model covers the texts in
      which no character outside ASCII is white space, a decimal digit or an
      upper-case letter, and none folds to an ASCII letter under
      [re.IGNORECASE] (U+0130, U+0131, U+017F, U+212A).  On those texts
      [\d], [\s], [str.strip], [str.lower] and the patterns of the program
      act on the bytes as they do on the characters: no byte of a character
      outside ASCII is an ASCII byte, so no match begins or ends inside one.
    - A Python [float] obtained from a decimal literal is kept as the exact
      rational the literal denotes (type [Q], in lowest terms); negation is
      exact on both sides.
    - Exceptions are explicit: a computation that may raise returns a
      [result]. *)

From Stdlib Require Import String Ascii List Bool Arith ZArith QArith Lia.
Import ListNotations.

Local Open Scope string_scope.
Local Open Scope list_scope.
Local Open Scope nat_scope.

Set Implicit Arguments.

(* ------------------------------------------------------------------ *)
(** ** Exceptions *)

Inductive exn : Type :=
| ValueError
| IndexError.

Inductive result (A : Type) : Type :=
| Ok (a : A)
| Raise (e : exn).

Arguments Ok {A} a.
Arguments Raise {A} e.

Definition bind {A B : Type} (m : result A) (k : A -> result B) : result B :=
  match m with
  | Ok a => k a
  | Raise e => Raise e
  end.

Notation "'do' x <- m ; k" := (bind m (fun x => k))
  (at level 10, x name, m at level 100, k at level 200).

(* ------------------------------------------------------------------ *)
(** ** Python string operations *)

Module PyStr.

Definition code (c : ascii) : nat := nat_of_ascii c.

Definition between (lo hi : nat) (c : ascii) : bool :=
  (lo <=? code c) && (code c <=? hi).

(** [\d] *)
Definition is_digit (c : ascii) : bool := between 48 57 c.

(** [\s], and the characters removed by [str.strip()]: the ASCII white
    space of [str.isspace] *)
Definition is_space (c : ascii) : bool :=
  between 9 13 c || between 28 32 c.

(** [[A-Za-z]] *)
Definition is_alpha (c : ascii) : bool := between 65 90 c || between 97 122 c.

Definition is_upper (c : ascii) : bool := between 65 90 c.

Definition is_lower (c : ascii) : bool := between 97 122 c.

Definition lower_char (c : ascii) : ascii :=
  if is_upper c then ascii_of_nat (code c + 32) else c.

Definition upper_char (c : ascii) : ascii :=
  if is_lower c then ascii_of_nat (code c - 32) else c.

Fixpoint map_chars (f : ascii -> ascii) (s : string) : string :=
  match s with
  | EmptyString => EmptyString
  | String c s' => String (f c) (map_chars f s')
  end.

(** [s.lower()] and [s.upper()] *)
Definition lower (s : string) : string := map_chars lower_char s.
Definition upper (s : string) : string := map_chars upper_char s.

(** [s.replace(c, '')] for a one-character [c] *)
Fixpoint remove_char (c : ascii) (s : string) : string :=
  match s with
  | EmptyString => EmptyString
  | String x s' =>
      if Ascii.eqb x c then remove_char c s' else String x (remove_char c s')
  end.

Fixpoint lstrip (s : string) : string :=
  match s with
  | EmptyString => EmptyString
  | String c s' => if is_space c then lstrip s' else s
  end.

Fixpoint rstrip (s : string) : string :=
  match s with
  | EmptyString => EmptyString
  | String c s' =>
      match rstrip s' with
      | EmptyString => if is_space c then EmptyString else String c EmptyString
      | r => String c r
      end
  end.

(** [s.strip()] *)
Definition strip (s : string) : string := rstrip (lstrip s).

(** [s.startswith(p)] *)
Definition startswith (p s : string) : bool := String.prefix p s.

(** [p in s] for strings *)
Fixpoint contains (p s : string) : bool :=
  String.prefix p s ||
  match s with
  | EmptyString => false
  | String _ s' => contains p s'
  end.

(** [x in l] for a list of strings *)
Definition mem (x : string) (l : list string) : bool :=
  existsb (String.eqb x) l.

(** Truthiness of a string: non-empty. *)
Definition truthy (s : string) : bool :=
  match s with
  | EmptyString => false
  | String _ _ => true
  end.

(** Truthiness of an optional string ([None] and [""] are falsy). *)
Definition truthy_opt (o : option string) : bool :=
  match o with
  | None => false
  | Some s => truthy s
  end.

(** [str(cell or "")] *)
Definition or_empty (o : option string) : string :=
  match o with
  | None => ""
  | Some s => s
  end.

(** The part of [s] before the first character satisfying [p], and the rest
    from that character on. *)
Fixpoint break_at (p : ascii -> bool) (s : string) : string * string :=
  match s with
  | EmptyString => (EmptyString, EmptyString)
  | String c s' =>
      if p c then (EmptyString, s)
      else let (a, b) := break_at p s' in (String c a, b)
  end.

(** The newline character. *)
Definition nl : string := String (ascii_of_nat 10) EmptyString.

(** [s.split('\n')[0]]: the text before the first newline. *)
Definition first_line_of (s : string) : string :=
  fst (break_at (fun c => code c =? 10) s).

(** [s.split()[0]] of a string known to start with a non-space character:
    its first white-space delimited token. *)
Definition first_token (s : string) : string :=
  fst (break_at is_space (lstrip s)).

End PyStr.

(* ------------------------------------------------------------------ *)
(** ** Regular expressions: the fragment of [re] the program uses

    Every pattern of the program is a sequence of literal characters,
    greedy repetitions of a character class, alternations of literal strings
    and capture-group brackets.  [re.search] is leftmost, and at each start
    position explores the choices depth first: a greedy repetition takes as
    many characters as it can and gives them back one at a time, and an
    alternation tries its branches from left to right.  [re.IGNORECASE]
    changes the comparison of literal characters; every character class the
    program uses contains a character exactly when it contains its other
    case ([class_case_closed] below), so the flag leaves classes alone. *)

Module Re.

Import PyStr.

Inductive atom : Type :=
| Chr (c : ascii)                                    (* a literal character *)
| Rep (cls : ascii -> bool) (lo : nat) (hi : option nat)  (* cls{lo,hi}, greedy *)
| Alt (alts : list string)                           (* lit1|lit2|... *)
| GOpen                                              (* ( *)
| GClose.                                            (* ) *)

Definition pattern : Type := list atom.

(** A literal string as a pattern. *)
Fixpoint lit (s : string) : pattern :=
  match s with
  | EmptyString => []
  | String c s' => Chr c :: lit s'
  end.

Definition star (cls : ascii -> bool) : atom := Rep cls 0 None.
Definition plus (cls : ascii -> bool) : atom := Rep cls 1 None.
Definition opt (cls : ascii -> bool) : atom := Rep cls 0 (Some 1).
Definition is_char (c : ascii) : ascii -> bool := fun x => Ascii.eqb x c.

(** Character comparison, with [re.IGNORECASE] when [ic] is set. *)
Definition chr_eq (ic : bool) (c x : ascii) : bool :=
  if ic then Ascii.eqb (lower_char c) (lower_char x) else Ascii.eqb c x.

(** [lit_prefix ic p s] is the rest of [s] after the literal [p], when [s]
    starts with [p]. *)
Fixpoint lit_prefix (ic : bool) (p s : string) : option string :=
  match p with
  | EmptyString => Some s
  | String c p' =>
      match s with
      | EmptyString => None
      | String x s' => if chr_eq ic c x then lit_prefix ic p' s' else None
      end
  end.

Definition below (n : nat) (hi : option nat) : bool :=
  match hi with
  | None => true
  | Some h => n <? h
  end.

(** The state of a match: the open groups' start positions (innermost
    first) and the spans of the closed groups, in closing order. *)
Record caps : Type := mkCaps {
  opened : list nat;
  closed : list (nat * nat)
}.

Definition no_caps : caps := mkCaps [] [].

Definition open_group (pos : nat) (k : caps) : caps :=
  mkCaps (pos :: opened k) (closed k).

Definition close_group (pos : nat) (k : caps) : caps :=
  match opened k with
  | [] => k
  | st :: rest => mkCaps rest (closed k ++ [(st, pos)])
  end.

(** The greedy repetition [cls{lo,hi}] with [n] characters taken so far:
    take one more when the class and the bound allow it, and when the rest
    of the pattern [cont] then fails, or no more can be taken, stop here. *)
Fixpoint rep_loop {R : Type} (cls : ascii -> bool) (lo : nat) (hi : option nat)
    (cont : string -> nat -> option R) (s : string) (pos n : nat)
    : option R :=
  let stop := if lo <=? n then cont s pos else None in
  match s with
  | EmptyString => stop
  | String x s' =>
      if cls x && below n hi then
        match rep_loop cls lo hi cont s' (S pos) (S n) with
        | Some r => Some r
        | None => stop
        end
      else stop
  end.

(** The alternation: the first branch, from the left, after which the rest
    of the pattern [cont] matches. *)
Fixpoint try_alts {R : Type} (ic : bool) (cont : string -> nat -> option R)
    (alts : list string) (s : string) (pos : nat) : option R :=
  match alts with
  | [] => None
  | a :: alts' =>
      match lit_prefix ic a s with
      | Some s' =>
          match cont s' (pos + String.length a) with
          | Some r => Some r
          | None => try_alts ic cont alts' s pos
          end
      | None => try_alts ic cont alts' s pos
      end
  end.

(** [match_seq ic rs s pos k]: match the pattern [rs] against [s], the text
    from position [pos] on; returns the end position and the groups. *)
Fixpoint match_seq (ic : bool) (rs : pattern) (s : string) (pos : nat)
    (k : caps) {struct rs} : option (nat * caps) :=
  match rs with
  | [] => Some (pos, k)
  | Chr c :: rs' =>
      match s with
      | EmptyString => None
      | String x s' =>
          if chr_eq ic c x then match_seq ic rs' s' (S pos) k else None
      end
  | Rep cls lo hi :: rs' =>
      rep_loop cls lo hi (fun s' pos' => match_seq ic rs' s' pos' k) s pos 0
  | Alt alts :: rs' =>
      try_alts ic (fun s' pos' => match_seq ic rs' s' pos' k) alts s pos
  | GOpen :: rs' => match_seq ic rs' s pos (open_group pos k)
  | GClose :: rs' => match_seq ic rs' s pos (close_group pos k)
  end.

(** A match object: its span and the spans of its groups. *)
Record match_obj : Type := mkMatch {
  m_start : nat;
  m_end : nat;
  m_groups : list (nat * nat)
}.

(** [re.match]: a match at the start of the text. *)
Definition rmatch (ic : bool) (rs : pattern) (text : string) : option match_obj :=
  match match_seq ic rs text 0 no_caps with
  | Some (e, k) => Some (mkMatch 0 e (closed k))
  | None => None
  end.

Fixpoint search_from (ic : bool) (rs : pattern) (s : string) (pos : nat)
    : option match_obj :=
  match match_seq ic rs s pos no_caps with
  | Some (e, k) => Some (mkMatch pos e (closed k))
  | None =>
      match s with
      | EmptyString => None
      | String _ s' => search_from ic rs s' (S pos)
      end
  end.

(** [re.search]: the leftmost match. *)
Definition search (ic : bool) (rs : pattern) (text : string) : option match_obj :=
  search_from ic rs text 0.

Definition span_text (text : string) (sp : nat * nat) : string :=
  String.substring (fst sp) (snd sp - fst sp) text.

(** [m.group()] *)
Definition group0 (text : string) (m : match_obj) : string :=
  span_text text (m_start m, m_end m).

(** [m.group(i)], for [i >= 1]; the patterns of the program close every
    group they open, so the group exists whenever the match does. *)
Definition group (text : string) (m : match_obj) (i : nat) : string :=
  span_text text (nth (i - 1) (m_groups m) (0, 0)).

End Re.

(* ------------------------------------------------------------------ *)
(** ** Decimal numerals *)

Module Num.

Import PyStr.

Definition digit_val (c : ascii) : nat := code c - 48.

(** The number written by a string of decimal digits. *)
Fixpoint nat_of_digits_acc (acc : N) (s : string) : N :=
  match s with
  | EmptyString => acc
  | String c s' => nat_of_digits_acc (10 * acc + N.of_nat (digit_val c))%N s'
  end.

Definition nat_of_digits (s : string) : N := nat_of_digits_acc 0%N s.

Fixpoint all_chars (p : ascii -> bool) (s : string) : bool :=
  match s with
  | EmptyString => true
  | String c s' => p c && all_chars p s'
  end.

Fixpoint pow10 (n : nat) : positive :=
  match n with
  | O => 1%positive
  | S n' => (10 * pow10 n')%positive
  end.

(** [float(s)] on the strings the program passes to it, which are made of
    digits and points only: the value of [digits], [digits.], [.digits] or
    [digits.digits], and [ValueError] for any other such string (no digit
    at all, or a second point). *)
Definition py_float (s : string) : result Q :=
  let (ip, rest) := break_at (fun c => Ascii.eqb c ".") s in
  let fp := match rest with
            | EmptyString => EmptyString
            | String _ r => r
            end in
  if all_chars is_digit ip && all_chars is_digit fp
     && (0 <? String.length ip + String.length fp)
  then Ok (Qred (Qmake (Z.of_N (nat_of_digits (ip ++ fp)))
                       (pow10 (String.length fp))))
  else Raise ValueError.

(** The decimal numeral of [n], at least [w] digits wide, padded with
    zeros; [fuel] bounds the number of digits written. *)
Definition digit_char (n : nat) : ascii := ascii_of_nat (48 + n mod 10).

Fixpoint digits_of (fuel n : nat) (acc : string) : string :=
  match fuel with
  | O => acc
  | S fuel' =>
      let acc' := String (digit_char n) acc in
      if n <? 10 then acc' else digits_of fuel' (n / 10) acc'
  end.

Fixpoint zeros (n : nat) : string :=
  match n with
  | O => EmptyString
  | S n' => String "0" (zeros n')
  end.

(** The decimal numeral of a number. *)
Definition decimal (n : nat) : string := digits_of (S n) n EmptyString.

Definition zero_pad (w n : nat) : string :=
  let d := decimal n in
  zeros (w - String.length d) ++ d.

End Num.

(* ------------------------------------------------------------------ *)
(** ** [datetime.strptime] and [strftime]

    The standard library turns a format into a regular expression: [%B] and
    [%b] are alternations of the lower-cased month names, longest first,
    [%d] is [3[0-1]|[1-2]\d|0[1-9]|[1-9]| [1-9]], [%m] is
    [1[0-2]|0[1-9]|[1-9]], [%Y] is four digits, and white space in the
    format is [\s+].  The expression is matched at the start of the string,
    ignoring case; the call raises [ValueError] when there is no match, when
    text remains after the match, or when the fields are not a calendar date
    of the years 1 to 9999.  The names are those of the C/English locale. *)

Module Strptime.

Import PyStr Re Num.

Record datetime : Type := mkDate {
  year : nat;
  month : nat;
  day : nat
}.

Definition month_names : list string :=
  ["january"; "february"; "march"; "april"; "may"; "june"; "july";
   "august"; "september"; "october"; "november"; "december"].

Definition month_abbrs : list string :=
  ["jan"; "feb"; "mar"; "apr"; "may"; "jun"; "jul"; "aug"; "sep"; "oct";
   "nov"; "dec"].

(** The alternatives in the order the library emits them (sorted by
    decreasing length, stable). *)
Definition re_B : list string :=
  ["september"; "february"; "november"; "december"; "january"; "october";
   "august"; "march"; "april"; "june"; "july"; "may"].

Definition re_b : list string := month_abbrs.

Definition re_d : list string :=
  ["30"; "31";
   "10"; "11"; "12"; "13"; "14"; "15"; "16"; "17"; "18"; "19";
   "20"; "21"; "22"; "23"; "24"; "25"; "26"; "27"; "28"; "29";
   "01"; "02"; "03"; "04"; "05"; "06"; "07"; "08"; "09";
   "1"; "2"; "3"; "4"; "5"; "6"; "7"; "8"; "9";
   " 1"; " 2"; " 3"; " 4"; " 5"; " 6"; " 7"; " 8"; " 9"].

Definition re_m : list string :=
  ["10"; "11"; "12";
   "01"; "02"; "03"; "04"; "05"; "06"; "07"; "08"; "09";
   "1"; "2"; "3"; "4"; "5"; "6"; "7"; "8"; "9"].

Definition re_Y : atom := Rep is_digit 4 (Some 4).

Inductive format : Type :=
| Fmt_B_d_Y     (* '%B %d %Y' *)
| Fmt_b_d_Y     (* '%b %d %Y' *)
| Fmt_m_d_Y.    (* '%m/%d/%Y' *)

Definition format_regex (f : format) : pattern :=
  match f with
  | Fmt_B_d_Y =>
      [GOpen; Alt re_B; GClose; plus is_space; GOpen; Alt re_d; GClose;
       plus is_space; GOpen; re_Y; GClose]
  | Fmt_b_d_Y =>
      [GOpen; Alt re_b; GClose; plus is_space; GOpen; Alt re_d; GClose;
       plus is_space; GOpen; re_Y; GClose]
  | Fmt_m_d_Y =>
      [GOpen; Alt re_m; GClose; Chr "/"; GOpen; Alt re_d; GClose;
       Chr "/"; GOpen; re_Y; GClose]
  end.

(** Position of a name in a list, counted from 1. *)
Fixpoint index_of (x : string) (l : list string) : option nat :=
  match l with
  | [] => None
  | y :: l' =>
      if String.eqb x y then Some 1
      else match index_of x l' with
           | Some i => Some (S i)
           | None => None
           end
  end.

(** [int(s)] for a field of digits, possibly after one space. *)
Definition int_field (s : string) : nat :=
  N.to_nat (nat_of_digits (lstrip s)).

Definition month_of (f : format) (s : string) : option nat :=
  match f with
  | Fmt_B_d_Y => index_of (lower s) month_names
  | Fmt_b_d_Y => index_of (lower s) month_abbrs
  | Fmt_m_d_Y => Some (int_field s)
  end.

Definition is_leap (y : nat) : bool :=
  ((y mod 4 =? 0) && negb (y mod 100 =? 0)) || (y mod 400 =? 0).

Definition days_in_month (y m : nat) : nat :=
  match m with
  | 2 => if is_leap y then 29 else 28
  | 4 | 6 | 9 | 11 => 30
  | _ => 31
  end.

(** The checks of the [datetime] constructor. *)
Definition valid_date (y m d : nat) : bool :=
  (1 <=? y) && (y <? 100 * 100) && (1 <=? m) && (m <=? 12)
  && (1 <=? d) && (d <=? days_in_month y m).

Definition strptime (date_string : string) (f : format) : result datetime :=
  match rmatch true (format_regex f) date_string with
  | None => Raise ValueError
  | Some found =>
      if negb (String.length date_string =? m_end found) then Raise ValueError
      else
        match month_of f (group date_string found 1) with
        | None => Raise ValueError
        | Some m =>
            let d := int_field (group date_string found 2) in
            let y := int_field (group date_string found 3) in
            if valid_date y m d then Ok (mkDate y m d) else Raise ValueError
        end
  end.

(** [dt.strftime('%Y-%m-%d')].  The C library prints the fields: [%m] and
    [%d] on two digits, and [%Y] as the decimal numeral of the year, which
    has four digits from the year 1000 on and fewer before (glibc does not
    pad it). *)
Definition strftime_iso (dt : datetime) : string :=
  decimal (year dt) ++ "-" ++ zero_pad 2 (month dt) ++ "-"
  ++ zero_pad 2 (day dt).

End Strptime.

(* ------------------------------------------------------------------ *)
(** ** The extractor ([extract_no_llm.py]) *)

Import PyStr Re Num Strptime.

(** *** Data *)

(** A table cell is a string or [None]; a table is a list of rows. *)
Definition cell : Type := option string.
Definition row : Type := list cell.
Definition table : Type := list row.

(** What [pdfplumber] gives for a page: [extract_text()], which may be
    [None], and [extract_tables()]. *)
Record page : Type := mkPage {
  page_text : option string;
  page_tables : list table
}.

Inductive kind : Type :=
| Credit
| Debit.

(** The dictionary built for one row; [None] is Python's [None]. *)
Record transaction : Type := mkTrans {
  tx_date : option string;
  tx_description : option string;
  tx_amount : option Q;
  tx_balance : option Q;
  tx_type : option kind
}.

Record period : Type := mkPeriod {
  period_from : option string;
  period_to : option string
}.

Record summary : Type := mkSummary {
  opening_balance : option Q;
  closing_balance : option Q;
  total_credits : option Q;
  total_debits : option Q
}.

Record statement : Type := mkStatement {
  bank_name : option string;
  account_holder : option string;
  account_number : option string;
  statement_period : period;
  statement_summary : summary;
  transactions : list transaction
}.

(** *** Text metadata *)

(** The first pattern of a list that is found in the text, with its match:
    the loop [for pattern in patterns: match = re.search(...); if match:
    return ...]. *)
Fixpoint first_search (ic : bool) (patterns : list pattern) (text : string)
    : option match_obj :=
  match patterns with
  | [] => None
  | p :: ps =>
      match search ic p text with
      | Some m => Some m
      | None => first_search ic ps text
      end
  end.

Definition bank_patterns : list pattern :=
  [[GOpen;
    Alt ["CHASE"; "Wells Fargo"; "Bank of America"; "Citibank";
         "Capital One"; "TD Bank"; "PNC"];
    GClose]].

Definition extract_bank_name (text : string) : option string :=
  let first_line := strip (first_line_of (strip text)) in
  match first_search true bank_patterns first_line with
  | Some m => Some (upper (group first_line m 1))
  | None => if truthy first_line then Some (first_token first_line) else None
  end.

Definition name_chars (c : ascii) : bool := is_alpha c || is_space c.

Definition holder_patterns : list pattern :=
  [lit "Account Holder:" ++ [star is_space; GOpen; plus name_chars; GClose];
   lit "Name:" ++ [star is_space; GOpen; plus name_chars; GClose];
   lit "Customer:" ++ [star is_space; GOpen; plus name_chars; GClose]].

Definition extract_account_holder (text : string) : option string :=
  match first_search true holder_patterns text with
  | Some m => Some (strip (group text m 1))
  | None => None
  end.

Definition masked_number : pattern :=
  [star is_space; GOpen; plus (is_char "*"); plus is_digit; GClose].

Definition account_patterns : list pattern :=
  [lit "Account Number:" ++ masked_number;
   lit "Account No:" ++ masked_number;
   lit "Acct#" ++ masked_number].

Definition extract_account_number (text : string) : option string :=
  match first_search true account_patterns text with
  | Some m => Some (group text m 1)
  | None => None
  end.

(** *** Dates *)

Definition date_formats : list format := [Fmt_B_d_Y; Fmt_b_d_Y; Fmt_m_d_Y].

(** The loop of [normalize_date] over the formats: the first one that
    parses returns; [except ValueError: continue] moves on to the next one,
    and any other exception leaves the function. *)
Fixpoint try_formats (date_str : string) (fmts : list format)
    : result string :=
  match fmts with
  | [] => Ok date_str
  | fmt :: rest =>
      match strptime date_str fmt with
      | Ok dt => Ok (strftime_iso dt)
      | Raise ValueError => try_formats date_str rest
      | Raise e => Raise e
      end
  end.

Definition normalize_date (date_str : string) : result string :=
  let date_str := remove_char "," date_str in
  try_formats date_str date_formats.

(** One calendar date of the period pattern:
    [[A-Za-z]+\s+\d{1,2},?\s+\d{4}], in a group. *)
Definition long_date : pattern :=
  [GOpen; plus is_alpha; plus is_space; Rep is_digit 1 (Some 2);
   opt (is_char ","); plus is_space; Rep is_digit 4 (Some 4); GClose].

(** The en dash, U+2013, in UTF-8. *)
Definition en_dash : string :=
  String (ascii_of_nat 226)
    (String (ascii_of_nat 128) (String (ascii_of_nat 147) EmptyString)).

(** Two dates around the class of the hyphen and the en dash, which over
    bytes is the alternation of the two. *)
Definition date_range_pattern : pattern :=
  long_date ++ [star is_space; Alt ["-"; en_dash]; star is_space]
  ++ long_date.

(** The two assignments run in order inside [try: ... except: pass]: an
    exception of either call leaves the dictionary as it was when the
    exception was raised. *)
Definition extract_statement_period (text : string) : period :=
  let result := mkPeriod None None in
  match search false date_range_pattern text with
  | Some m =>
      match normalize_date (group text m 1) with
      | Raise _ => result
      | Ok d1 =>
          let result := mkPeriod (Some d1) (period_to result) in
          match normalize_date (group text m 2) with
          | Raise _ => result
          | Ok d2 => mkPeriod (period_from result) (Some d2)
          end
      end
  | None => result
  end.

(** *** Summary *)

Definition digit_or_comma (c : ascii) : bool := is_digit c || Ascii.eqb c ",".

(** [[\d,]+\.?\d*] *)
Definition numeric_run : pattern :=
  [plus digit_or_comma; opt (is_char "."); star is_digit].

Definition not_dollar (c : ascii) : bool := negb (Ascii.eqb c "$").

(** The label, any characters but the dollar sign, an optional dollar sign,
    and the numeric run in a group. *)
Definition summary_pattern (label : string) : pattern :=
  lit label ++ [star not_dollar; opt (is_char "$"); GOpen] ++ numeric_run
  ++ [GClose].

(** One iteration of the loop of [extract_summary]: the value stored under
    a key, [None] when nothing is stored. *)
Definition summary_field (label text : string) : option Q :=
  match search true (summary_pattern label) text with
  | Some m =>
      match py_float (remove_char "," (group text m 1)) with
      | Ok v => Some v
      | Raise _ => None
      end
  | None => None
  end.

Definition extract_summary (text : string) : summary :=
  mkSummary (summary_field "Opening Balance" text)
            (summary_field "Closing Balance" text)
            (summary_field "Total Credits" text)
            (summary_field "Total Debits" text).

(** *** Amounts *)

Definition parse_amount (amount_str : string)
    : result (option Q * option kind) :=
  let amount_str := strip amount_str in
  let is_debit := startswith "-" amount_str || startswith "($" amount_str in
  let stripped := remove_char "$" amount_str in
  match search false numeric_run stripped with
  | Some m =>
      do value <- py_float (remove_char "," (group0 stripped m));
      Ok (Some (if is_debit then Qopp value else value),
          Some (if is_debit then Debit else Credit))
  | None => Ok (None, None)
  end.

Definition parse_balance (balance_str : string) : result (option Q) :=
  let stripped := remove_char "$" balance_str in
  match search false numeric_run stripped with
  | Some m =>
      do value <- py_float (remove_char "," (group0 stripped m));
      Ok (Some value)
  | None => Ok None
  end.

(** *** The transaction table *)

(** [col_map]: the column of each logical field, when a header names it. *)
Record col_map : Type := mkColMap {
  col_date : option nat;
  col_description : option nat;
  col_amount : option nat;
  col_balance : option nat
}.

Definition empty_col_map : col_map := mkColMap None None None None.

(** [str(cell).lower().strip() if cell else ""] *)
Definition header_text (c : cell) : string :=
  if truthy_opt c then strip (lower (or_empty c)) else "".

(** One step of the loop over [enumerate(headers)]. *)
Definition map_header (cm : col_map) (i : nat) (h : string) : col_map :=
  if contains "date" h then
    mkColMap (Some i) (col_description cm) (col_amount cm) (col_balance cm)
  else if contains "description" h then
    mkColMap (col_date cm) (Some i) (col_amount cm) (col_balance cm)
  else if contains "amount" h then
    mkColMap (col_date cm) (col_description cm) (Some i) (col_balance cm)
  else if contains "balance" h then
    mkColMap (col_date cm) (col_description cm) (col_amount cm) (Some i)
  else cm.

Fixpoint map_headers (cm : col_map) (i : nat) (headers : list string)
    : col_map :=
  match headers with
  | [] => cm
  | h :: hs => map_headers (map_header cm i h) (S i) hs
  end.

Definition build_col_map (header : row) : col_map :=
  map_headers empty_col_map 0 (map header_text header).

(** [not row or all(not cell for cell in row)] *)
Definition blank_row (r : row) : bool :=
  forallb (fun c => negb (truthy_opt c)) r.

(** [row[i]], which raises [IndexError] past the end of the row. *)
Definition cell_at (r : row) (i : nat) : result cell :=
  match nth_error r i with
  | Some c => Ok c
  | None => Raise IndexError
  end.

(** The value a mapped column contributes, [dflt] when the field has no
    column. *)
Definition column_value {A : Type} (col : option nat) (r : row) (dflt : A)
    (f : string -> result A) : result A :=
  match col with
  | None => Ok dflt
  | Some i => do c <- cell_at r i; f (or_empty c)
  end.

(** The dictionary [trans] after the four [if ... in col_map] blocks. *)
Definition build_trans (cm : col_map) (r : row) : result transaction :=
  do d <- column_value (col_date cm) r None
            (fun s => do d <- normalize_date s; Ok (Some d));
  do desc <- column_value (col_description cm) r None
            (fun s => Ok (Some (strip s)));
  do at_ <- column_value (col_amount cm) r (None, None) parse_amount;
  do b <- column_value (col_balance cm) r None parse_balance;
  Ok (mkTrans d desc (fst at_) b (snd at_)).

(** [trans["date"] or trans["description"]] *)
Definition retained (t : transaction) : bool :=
  truthy_opt (tx_date t) || truthy_opt (tx_description t).

(** The body of the loop over the data rows: the list after the row. *)
Definition parse_row (cm : col_map) (acc : list transaction) (r : row)
    : result (list transaction) :=
  if blank_row r then Ok acc
  else
    do trans <- build_trans cm r;
    if retained trans then Ok (acc ++ [trans]) else Ok acc.

Fixpoint parse_rows (cm : col_map) (acc : list transaction) (rows : list row)
    : result (list transaction) :=
  match rows with
  | [] => Ok acc
  | r :: rest => do acc' <- parse_row cm acc r; parse_rows cm acc' rest
  end.

Definition parse_transaction_table (t : table) : result (list transaction) :=
  match t with
  | header :: ((_ :: _) as rows) => parse_rows (build_col_map header) [] rows
  | _ => Ok []
  end.

(** *** The whole statement *)

(** [str(cell).lower() if cell else ""] *)
Definition header_lower (c : cell) : string :=
  if truthy_opt c then lower (or_empty c) else "".

Definition header_tokens : list string :=
  ["date"; "description"; "amount"; "balance"].

(** The test of the loop over the tables of a page: [table and
    len(table) > 1], and then [any(h in headers for h in [...])], where
    [headers] is the list of the lower-cased header cells. *)
Definition qualifies (t : table) : bool :=
  match t with
  | header :: _ :: _ =>
      let headers := map header_lower header in
      existsb (fun h => mem h headers) header_tokens
  | _ => false
  end.

(** The state of the loop over the pages: the text read so far and the
    current value of [result["transactions"]]. *)
Definition scan_table (txs : list transaction) (t : table)
    : result (list transaction) :=
  if qualifies t then parse_transaction_table t else Ok txs.

Fixpoint scan_tables (txs : list transaction) (ts : list table)
    : result (list transaction) :=
  match ts with
  | [] => Ok txs
  | t :: rest => do txs' <- scan_table txs t; scan_tables txs' rest
  end.

Fixpoint scan_pages (full_text : string) (txs : list transaction)
    (pages : list page) : result (string * list transaction) :=
  match pages with
  | [] => Ok (full_text, txs)
  | p :: rest =>
      let full_text := (full_text ++ or_empty (page_text p) ++ nl)%string in
      do txs' <- scan_tables txs (page_tables p);
      scan_pages full_text txs' rest
  end.

Definition extract_bank_statement (pages : list page) : result statement :=
  do r <- scan_pages "" [] pages;
  let full_text := fst r in
  Ok (mkStatement (extract_bank_name full_text)
                  (extract_account_holder full_text)
                  (extract_account_number full_text)
                  (extract_statement_period full_text)
                  (extract_summary full_text)
                  (snd r)).

(* ------------------------------------------------------------------ *)
(** ** Decryption ([scripts/decrypt_pdf.py]) *)

Module Decrypt.

Import PyStr.

(** An exception of the PDF library or of the file system, with [str(e)]. *)
Inductive attempt (A : Type) : Type :=
| Done (a : A)
| Throws (msg : string).

Arguments Done {A} a.
Arguments Throws {A} msg.

Definition andThen {A B : Type} (m : attempt A) (k : A -> attempt B)
    : attempt B :=
  match m with
  | Done a => k a
  | Throws msg => Throws msg
  end.

(** The value of [reader.decrypt(password)]. *)
Inductive password_type : Type :=
| NOT_DECRYPTED
| USER_PASSWORD
| OWNER_PASSWORD.

(** Truthiness of the enumeration: its integer value is not zero. *)
Definition decrypted (p : password_type) : bool :=
  match p with
  | NOT_DECRYPTED => false
  | _ => true
  end.

(** The dictionaries [decrypt_pdf] returns. *)
Inductive response : Type :=
| Failure (error : string) (is_encrypted : bool)
| Success (decrypted_base64 : string) (is_encrypted : bool) (num_pages : nat).

Definition incorrect_password_msg : string :=
  "Incorrect password. Please check and try again.".

Definition requires_password_msg : string :=
  "This PDF requires a password. Please enter the correct password.".

Section WithLibrary.

(** The collaborators: base64, the temporary file and [pypdf]. *)
Variables pdf_bytes path reader : Type.
Variable b64decode : string -> attempt pdf_bytes.
Variable write_temp : pdf_bytes -> attempt path.
Variable PdfReader : path -> attempt reader.
Variable reader_is_encrypted : reader -> bool.
Variable reader_decrypt : reader -> string -> attempt password_type.
(** Copying the pages to a writer, writing it out, reading it back and
    encoding it: the encoded bytes and the number of pages. *)
Variable rewrite_pages : reader -> path -> attempt (string * nat).

(** The inner [try] block up to its [return]s. *)
Definition decrypt_body (input_path : path) (password : string)
    : attempt response :=
  andThen (PdfReader input_path) (fun rd =>
  andThen (if reader_is_encrypted rd
           then andThen (reader_decrypt rd password)
                        (fun p => Done (negb (decrypted p)))
           else Done false) (fun wrong =>
  if wrong then Done (Failure incorrect_password_msg true)
  else
    andThen (rewrite_pages rd input_path) (fun out =>
    Done (Success (fst out) (reader_is_encrypted rd) (snd out))))).

(** The inner [except Exception as e]. *)
Definition password_issue (msg : string) : bool :=
  let error_msg := lower msg in
  contains "password" error_msg || contains "encrypt" error_msg
  || contains "decrypt" error_msg.

Definition decrypt_inner (input_path : path) (password : string)
    : attempt response :=
  match decrypt_body input_path password with
  | Done r => Done r
  | Throws msg =>
      if password_issue msg then Done (Failure requires_password_msg true)
      else Throws msg
  end.

(** The outer [try ... except Exception as e]. *)
Definition decrypt_pdf (input_base64 password : string) : response :=
  match andThen (b64decode input_base64) (fun bytes =>
        andThen (write_temp bytes) (fun input_path =>
        decrypt_inner input_path password)) with
  | Done r => r
  | Throws msg => Failure ("Failed to process PDF: " ++ msg) false
  end.

End WithLibrary.

End Decrypt.

(* ------------------------------------------------------------------ *)
(** ** What a pattern describes

    [run ic rs s pos k e k'] holds when the pattern [rs] can consume a
    prefix of [s] in some way, greedy or not: from position [pos] with
    groups [k] to position [e] with groups [k'].  The matcher explores these
    runs in a fixed order and returns the first one. *)

Module ReSpec.

Import PyStr Re Num.

Definition within (n : nat) (hi : option nat) : Prop :=
  match hi with
  | None => True
  | Some h => n <= h
  end.

Inductive run (ic : bool)
    : pattern -> string -> nat -> caps -> nat -> caps -> Prop :=
| run_nil s pos k :
    run ic [] s pos k pos k
| run_chr c rs x s pos k e k' :
    chr_eq ic c x = true ->
    run ic rs s (S pos) k e k' ->
    run ic (Chr c :: rs) (String x s) pos k e k'
| run_rep cls lo hi rs taken s pos k e k' :
    all_chars cls taken = true ->
    lo <= String.length taken ->
    within (String.length taken) hi ->
    run ic rs s (pos + String.length taken) k e k' ->
    run ic (Rep cls lo hi :: rs) (taken ++ s) pos k e k'
| run_alt alts a rs s s' pos k e k' :
    In a alts ->
    lit_prefix ic a s = Some s' ->
    run ic rs s' (pos + String.length a) k e k' ->
    run ic (Alt alts :: rs) s pos k e k'
| run_open rs s pos k e k' :
    run ic rs s pos (open_group pos k) e k' ->
    run ic (GOpen :: rs) s pos k e k'
| run_close rs s pos k e k' :
    run ic rs s pos (close_group pos k) e k' ->
    run ic (GClose :: rs) s pos k e k'.

(** The pattern [rs] matches in [text] at position [i], with the given end
    and group spans. *)
Definition matches_at (ic : bool) (rs : pattern) (text : string) (i : nat)
    (m : match_obj) : Prop :=
  exists pre s k',
    text = (pre ++ s)%string /\ String.length pre = i /\
    run ic rs s i no_caps (m_end m) k' /\
    m_start m = i /\ m_groups m = closed k'.

Definition no_match_at (ic : bool) (rs : pattern) (text : string) (i : nat)
    : Prop :=
  forall m, ~ matches_at ic rs text i m.

(** Equality of strings up to case. *)
Definition same_ic (a b : string) : Prop := lower a = lower b.

End ReSpec.

(* ------------------------------------------------------------------ *)
(** ** The specification's notions *)

Module Spec.

Import ReSpec.

(** A numeric amount: digits and thousands separators, then an optional
    point, then optional digits. *)
Definition amount_text (num : string) : Prop :=
  exists a d b,
    num = (a ++ d ++ b)%string /\ a <> "" /\
    all_chars digit_or_comma a = true /\ (d = "" \/ d = ".") /\
    all_chars is_digit b = true.

(** A masked number: one or more asterisks, then one or more digits. *)
Definition masked_text (num : string) : Prop :=
  exists stars digits,
    num = (stars ++ digits)%string /\ stars <> "" /\
    all_chars (is_char "*") stars = true /\ digits <> "" /\
    all_chars is_digit digits = true.

(** The last element of a list. *)
Fixpoint last_opt {A : Type} (l : list A) : option A :=
  match l with
  | [] => None
  | x :: l' =>
      match last_opt l' with
      | None => Some x
      | Some y => Some y
      end
  end.

(** The tables of a document, in page and table order. *)
Definition all_tables (pages : list page) : list table :=
  flat_map page_tables pages.

(** The tables that pass the test of [extract_bank_statement], in page and
    table order. *)
Definition accepted_tables (pages : list page) : list table :=
  filter qualifies (all_tables pages).

(** A grid qualifies, in the words of the specification: a header row and
    at least one more row, and a lower-cased header cell that contains one
    of the tokens as a substring. *)
Definition qualifies_spec (t : table) : bool :=
  match t with
  | header :: _ :: _ =>
      existsb (fun c => existsb (fun tok => contains tok (header_lower c))
                                header_tokens) header
  | _ => false
  end.

(** The qualifying tables of a document, in the words of the
    specification, in page and table order. *)
Definition qualifying_tables (pages : list page) : list table :=
  filter qualifies_spec (all_tables pages).






(** The longest prefix of characters of a class, and what follows it. *)
Fixpoint take_while (p : ascii -> bool) (s : string) : string :=
  match s with
  | EmptyString => EmptyString
  | String c s' => if p c then String c (take_while p s') else EmptyString
  end.

Fixpoint drop_while (p : ascii -> bool) (s : string) : string :=
  match s with
  | EmptyString => EmptyString
  | String c s' => if p c then drop_while p s' else s
  end.

(** The first character of a string is not in the class, or there is
    none. *)
Definition stops (p : ascii -> bool) (s : string) : Prop :=
  match s with
  | EmptyString => True
  | String c _ => p c = false
  end.






(** A transaction has a date or a description. *)
Definition dated_or_described (tx : transaction) : Prop :=
  tx_date tx <> None \/ tx_description tx <> None.

(** A character class that holds a character exactly when it holds its
    other case. *)
Definition case_closed (cls : ascii -> bool) : Prop :=
  forall x, cls (lower_char x) = cls x /\ cls (upper_char x) = cls x.

End Spec.

(* ------------------------------------------------------------------ *)
(** ** The shapes of the matches *)

(** What any match of a summary or account pattern looks like, whatever
    the split the matcher takes; the link between the matcher and the
    captures of the specification. *)
Module MatchShape.

Import ReSpec Spec.

(** The shape of a match of a summary pattern: at position [i] of [text]
    stands the label, in any case, followed by characters other than the
    dollar sign, an optional dollar sign and a numeric amount [num].  The
    shape leaves open where the amount begins and ends, which
    [summary_capture] fixes. *)
Definition summary_occurrence (label text : string) (i : nat) (num : string)
    : Prop :=
  exists pre lab mid dol rest,
    text = (pre ++ lab ++ mid ++ dol ++ num ++ rest)%string /\
    String.length pre = i /\ same_ic lab label /\
    all_chars not_dollar mid = true /\ (dol = "" \/ dol = "$") /\
    amount_text num.

(** The shape of a match of an account pattern: at position [i] of [text]
    stands the label, in any case, followed by optional white space and a
    masked number [num].  The shape leaves open where the digits end,
    which [account_capture] fixes. *)
Definition account_occurrence (label text : string) (i : nat) (num : string)
    : Prop :=
  exists pre lab ws rest,
    text = (pre ++ lab ++ ws ++ num ++ rest)%string /\
    String.length pre = i /\ same_ic lab label /\
    all_chars is_space ws = true /\ masked_text num.

End MatchShape.

(* ------------------------------------------------------------------ *)
(** ** Sample inputs *)

Module Samples.

Definition two_tables_doc : list page :=
  [mkPage (Some "CHASE")
     [[[Some "Date"; Some "Description"];
       [Some "01/05/2024"; Some "Coffee"]]];
   mkPage None
     [[[Some "date"; Some "amount"];
       [Some "01/06/2024"; Some "$5.00"]]]].

Definition long_header_table : table :=
  [[Some "Transaction Date"; Some "Amount ($)"];
   [Some "01/05/2024"; Some "$5.00"]].

Definition empty_row_table : table :=
  [[Some "Date"; Some "Description"; Some "Amount"; Some "Balance"];
   [Some ""; Some ""; Some ""; Some ""]].

Definition coffee_table : table :=
  [[Some "Date"; Some "Description"; Some "Amount"; Some "Balance"];
   [Some "01/05/2024"; Some "Coffee"; Some "-$4.50"; Some "$1,000.00"]].

(** A library for trying [decrypt_pdf]: the reader is the password of the
    file, and every file is encrypted. *)
Definition toy_decrypt (rd password : string)
    : Decrypt.attempt Decrypt.password_type :=
  Decrypt.Done (if String.eqb rd password then Decrypt.USER_PASSWORD
                else Decrypt.NOT_DECRYPTED).

End Samples.

(* ------------------------------------------------------------------ *)
(** ** Facts about strings and the matcher *)

Import ReSpec Spec MatchShape Samples.

Module StrFacts.

Lemma append_assoc (a b c : string) : ((a ++ b) ++ c = a ++ (b ++ c))%string.
Proof. induction a as [|x a IH]; simpl; [reflexivity | now rewrite IH]. Qed.


Lemma length_append (a b : string) :
  String.length (a ++ b) = String.length a + String.length b.
Proof. induction a as [|x a IH]; simpl; [reflexivity | now rewrite IH]. Qed.

Lemma substring_skip (u v : string) n :
  substring (String.length u) n (u ++ v) = substring 0 n v.
Proof. induction u as [|x u IH]; simpl; [reflexivity | exact IH]. Qed.

Lemma substring_take (v w : string) :
  substring 0 (String.length v) (v ++ w) = v.
Proof.
  induction v as [|x v IH]; simpl.
  - destruct w; reflexivity.
  - now rewrite IH.
Qed.

(** The text between two positions of a concatenation. *)
Lemma span_text_middle (u v w : string) :
  span_text (u ++ v ++ w)
            (String.length u, String.length u + String.length v) = v.
Proof.
  unfold span_text. simpl.
  replace (String.length u + String.length v - String.length u)
    with (String.length v) by lia.
  rewrite substring_skip. apply substring_take.
Qed.


Lemma lower_app (a b : string) : lower (a ++ b) = (lower a ++ lower b)%string.
Proof.
  unfold lower. induction a as [|x a IH]; simpl; [reflexivity | now rewrite IH].
Qed.

Lemma lit_prefix_length ic l : forall s s',
  lit_prefix ic l s = Some s' ->
  exists lab, s = (lab ++ s')%string /\ String.length lab = String.length l.
Proof.
  induction l as [|c l IH]; intros s s' H; simpl in H.
  - injection H as ->. exists EmptyString. auto.
  - destruct s as [|x s]; [discriminate|].
    destruct (chr_eq ic c x); [|discriminate].
    destruct (IH _ _ H) as (lab & -> & Hl).
    exists (String x lab). simpl. auto.
Qed.

(** Under [re.IGNORECASE] a literal matches the strings equal to it up to
    case. *)
Lemma lit_prefix_ic l : forall s s',
  lit_prefix true l s = Some s' <->
  exists lab, s = (lab ++ s')%string /\ same_ic lab l.
Proof.
  unfold same_ic, lower.
  induction l as [|c l IH]; intros s s'; simpl.
  - split.
    + intros H. injection H as ->. exists EmptyString. auto.
    + intros (lab & -> & H). destruct lab; [reflexivity | discriminate].
  - destruct s as [|x s].
    + split; [discriminate|].
      intros (lab & H1 & H2). destruct lab; discriminate.
    + split.
      * destruct (Ascii.eqb (lower_char c) (lower_char x)) eqn:E; [|discriminate].
        apply Ascii.eqb_eq in E.
        intros H. apply IH in H. destruct H as (lab & -> & Hl).
        exists (String x lab). simpl. rewrite Hl, E. auto.
      * intros (lab & H1 & H2). destruct lab as [|y lab]; [discriminate|].
        simpl in H1, H2. injection H1 as -> ->. injection H2 as Hc Hl.
        rewrite Hc, Ascii.eqb_refl. apply IH. exists lab. auto.
Qed.

End StrFacts.

Module ReFacts.

Import StrFacts.

Lemma within_below n hi : within (S n) hi -> below n hi = true.
Proof.
  destruct hi as [h|]; simpl; intros H; [apply Nat.ltb_lt; lia | reflexivity].
Qed.

Lemma below_within n hi : below n hi = true -> within (S n) hi.
Proof.
  destruct hi as [h|]; simpl; intros H; [apply Nat.ltb_lt in H; lia | exact I].
Qed.

Section Loops.

Variable R : Type.
Variable cont : string -> nat -> option R.

Lemma rep_loop_sound cls lo hi s : forall pos n r,
  rep_loop cls lo hi cont s pos n = Some r ->
  within n hi ->
  exists taken s',
    s = (taken ++ s')%string /\ all_chars cls taken = true /\
    lo <= n + String.length taken /\ within (n + String.length taken) hi /\
    cont s' (pos + String.length taken) = Some r.
Proof.
  induction s as [|x s IH]; intros pos n r H Hn.
  - simpl in H. destruct (lo <=? n) eqn:E; [|discriminate].
    apply Nat.leb_le in E.
    exists EmptyString, EmptyString. simpl.
    rewrite !Nat.add_0_r. auto.
  - simpl in H.
    assert (Hstop : (if lo <=? n then cont (String x s) pos else None) = Some r ->
            exists taken s', String x s = (taken ++ s')%string /\
              all_chars cls taken = true /\ lo <= n + String.length taken /\
              within (n + String.length taken) hi /\
              cont s' (pos + String.length taken) = Some r).
    { intros H'. destruct (lo <=? n) eqn:E; [|discriminate].
      apply Nat.leb_le in E.
      exists EmptyString, (String x s). simpl. rewrite !Nat.add_0_r. auto. }
    destruct (cls x && below n hi) eqn:C; [|auto].
    destruct (rep_loop cls lo hi cont s (S pos) (S n)) as [r'|] eqn:L; [|auto].
    injection H as ->.
    apply andb_true_iff in C. destruct C as [Cx Cb].
    destruct (IH _ _ _ L (below_within _ _ Cb))
      as (taken & s' & -> & Hall & Hlo & Hhi & Hc).
    exists (String x taken), s'. simpl. rewrite Cx, Hall.
    replace (n + S (String.length taken)) with (S n + String.length taken) by lia.
    replace (pos + S (String.length taken)) with (S pos + String.length taken) by lia.
    auto.
Qed.

Lemma rep_loop_complete cls lo hi taken : forall s' pos n r,
  all_chars cls taken = true ->
  lo <= n + String.length taken ->
  within (n + String.length taken) hi ->
  cont s' (pos + String.length taken) = Some r ->
  exists r', rep_loop cls lo hi cont (taken ++ s')%string pos n = Some r'.
Proof.
  induction taken as [|x taken IH]; intros s' pos n r Hall Hlo Hhi Hc.
  - simpl in *. rewrite Nat.add_0_r in *.
    assert (E : (lo <=? n) = true) by (apply Nat.leb_le; lia).
    destruct s' as [|y s'']; simpl; rewrite E.
    + eauto.
    + destruct (cls y && below n hi); [|eauto].
      destruct (rep_loop cls lo hi cont s'' (S pos) (S n)); eauto.
  - simpl in Hall. apply andb_true_iff in Hall. destruct Hall as [Hx Hall].
    simpl String.length in *.
    replace (n + S (String.length taken)) with (S n + String.length taken) in * by lia.
    replace (pos + S (String.length taken)) with (S pos + String.length taken) in * by lia.
    destruct (IH s' (S pos) (S n) r Hall Hlo Hhi Hc) as [r' Hr'].
    simpl. rewrite Hx.
    assert (B : below n hi = true).
    { apply within_below. destruct hi as [h|]; simpl in *; [lia|exact I]. }
    rewrite B. simpl. rewrite Hr'. eauto.
Qed.

Lemma try_alts_sound ic alts s pos r :
  try_alts ic cont alts s pos = Some r ->
  exists a s', In a alts /\ lit_prefix ic a s = Some s' /\
               cont s' (pos + String.length a) = Some r.
Proof.
  induction alts as [|a alts IH]; simpl; [discriminate|].
  intros H.
  destruct (lit_prefix ic a s) as [s'|] eqn:P.
  - destruct (cont s' (pos + String.length a)) as [r'|] eqn:C.
    + injection H as ->. exists a, s'. auto.
    + destruct (IH H) as (a' & s'' & Hin & Hp & Hc). exists a', s''. auto.
  - destruct (IH H) as (a' & s'' & Hin & Hp & Hc). exists a', s''. auto.
Qed.

Lemma try_alts_complete ic alts a s s' pos r :
  In a alts -> lit_prefix ic a s = Some s' ->
  cont s' (pos + String.length a) = Some r ->
  exists r', try_alts ic cont alts s pos = Some r'.
Proof.
  induction alts as [|b alts IH]; simpl; [tauto|].
  intros [->|Hin] Hp Hc.
  - rewrite Hp, Hc. eauto.
  - destruct (lit_prefix ic b s) as [s''|]; [|eauto].
    destruct (cont s'' (pos + String.length b)); eauto.
Qed.

End Loops.

Lemma match_seq_sound ic rs : forall s pos k e k',
  match_seq ic rs s pos k = Some (e, k') -> run ic rs s pos k e k'.
Proof.
  induction rs as [|a rs IH]; intros s pos k e k' H.
  - simpl in H. injection H as <- <-. constructor.
  - destruct a as [c|cls lo hi|alts| |]; simpl in H.
    + destruct s as [|x s]; [discriminate|].
      destruct (chr_eq ic c x) eqn:E; [|discriminate].
      constructor; auto.
    + apply rep_loop_sound in H; [|destruct hi; simpl; [lia|exact I]].
      destruct H as (taken & s' & -> & Hall & Hlo & Hhi & Hc).
      simpl in Hlo, Hhi. constructor; auto.
    + apply try_alts_sound in H.
      destruct H as (a & s' & Hin & Hp & Hc).
      econstructor; eauto.
    + constructor; auto.
    + constructor; auto.
Qed.

Lemma match_seq_complete ic rs s pos k e k' :
  run ic rs s pos k e k' -> exists r, match_seq ic rs s pos k = Some r.
Proof.
  induction 1 as [s pos k|c rs x s pos k e k' Hc _ IH
                 |cls lo hi rs taken s pos k e k' Hall Hlo Hhi _ IH
                 |alts a rs s s' pos k e k' Hin Hp _ IH
                 |rs s pos k e k' _ IH|rs s pos k e k' _ IH]; simpl.
  - eauto.
  - rewrite Hc. exact IH.
  - destruct IH as [r Hr].
    eapply rep_loop_complete with (r := r); eauto.
  - destruct IH as [r Hr].
    eapply try_alts_complete with (r := r); eauto.
  - exact IH.
  - exact IH.
Qed.

Lemma search_from_some ic rs s : forall pos m,
  search_from ic rs s pos = Some m ->
  exists skipped s' k',
    s = (skipped ++ s')%string /\ m_start m = pos + String.length skipped /\
    run ic rs s' (m_start m) no_caps (m_end m) k' /\ m_groups m = closed k' /\
    forall sk2 s2 e k, s = (sk2 ++ s2)%string ->
      String.length sk2 < String.length skipped ->
      ~ run ic rs s2 (pos + String.length sk2) no_caps e k.
Proof.
  induction s as [|x s IH]; intros pos m H; simpl in H.
  - destruct (match_seq ic rs "" pos no_caps) as [[e k]|] eqn:M; [|discriminate].
    injection H as <-. apply match_seq_sound in M.
    exists EmptyString, EmptyString, k. simpl. rewrite Nat.add_0_r.
    repeat split; auto. intros; lia.
  - destruct (match_seq ic rs (String x s) pos no_caps) as [[e k]|] eqn:M.
    + injection H as <-. apply match_seq_sound in M.
      exists EmptyString, (String x s), k. simpl. rewrite Nat.add_0_r.
      repeat split; auto. intros; lia.
    + destruct (IH _ _ H) as (sk & s' & k' & -> & Hst & Hrun & Hg & Hmin).
      exists (String x sk), s', k'. simpl.
      replace (pos + S (String.length sk)) with (S pos + String.length sk) by lia.
      repeat split; auto.
      intros sk2 s2 e k Heq Hlt Hr.
      destruct sk2 as [|y sk2]; simpl in *.
      * subst s2. rewrite Nat.add_0_r in Hr.
        apply match_seq_complete in Hr. destruct Hr as [r Hr]. congruence.
      * injection Heq as _ Heq.
        apply (Hmin sk2 s2 e k Heq); [lia|].
        rewrite Nat.add_succ_r in Hr. exact Hr.
Qed.

Lemma search_from_none ic rs s : forall pos,
  search_from ic rs s pos = None ->
  forall sk s' e k, s = (sk ++ s')%string ->
    ~ run ic rs s' (pos + String.length sk) no_caps e k.
Proof.
  induction s as [|x s IH]; intros pos H sk s' e k Heq Hr; simpl in H.
  - destruct sk; [|discriminate]. simpl in Heq. subst s'.
    simpl in Hr. rewrite Nat.add_0_r in Hr.
    apply match_seq_complete in Hr. destruct Hr as [r Hr].
    rewrite Hr in H. destruct r; discriminate.
  - destruct (match_seq ic rs (String x s) pos no_caps) as [[e0 k0]|] eqn:M;
      [discriminate|].
    destruct sk as [|y sk]; simpl in *.
    + subst s'. rewrite Nat.add_0_r in Hr.
      apply match_seq_complete in Hr. destruct Hr as [r Hr]. congruence.
    + injection Heq as _ Heq.
      apply (IH _ H sk s' e k Heq).
      rewrite Nat.add_succ_r in Hr. exact Hr.
Qed.

(** [re.search] returns the leftmost match, and [None] exactly when the
    pattern matches nowhere. *)
Lemma search_some ic rs text m :
  search ic rs text = Some m ->
  matches_at ic rs text (m_start m) m /\
  forall j, j < m_start m -> no_match_at ic rs text j.
Proof.
  unfold search. intros H.
  apply search_from_some in H. destruct H
    as (sk & s' & k' & Heq & Hst & Hrun & Hg & Hmin).
  simpl in Hst. split.
  - exists sk, s', k'. repeat split; auto.
  - intros j Hj m' (pre & s2 & k2 & Heq2 & Hlen & Hrun2 & _).
    apply (Hmin pre s2 (m_end m') k2 Heq2); [lia|].
    simpl. rewrite Hlen. exact Hrun2.
Qed.

Lemma search_none ic rs text :
  search ic rs text = None -> forall i, no_match_at ic rs text i.
Proof.
  unfold search. intros H i m (pre & s2 & k2 & Heq2 & Hlen & Hrun2 & _).
  apply (@search_from_none ic rs text 0 H pre s2 (m_end m) k2 Heq2).
  simpl. rewrite Hlen. exact Hrun2.
Qed.

Lemma first_search_some ic ps text m :
  first_search ic ps text = Some m ->
  exists before p after,
    ps = before ++ p :: after /\
    (forall q, In q before -> forall i, no_match_at ic q text i) /\
    matches_at ic p text (m_start m) m /\
    forall j, j < m_start m -> no_match_at ic p text j.
Proof.
  induction ps as [|p ps IH]; simpl; [discriminate|].
  destruct (search ic p text) as [m'|] eqn:S; intros H.
  - injection H as ->. apply search_some in S. destruct S as [S1 S2].
    exists [], p, ps. simpl. repeat split; auto. tauto.
  - destruct (IH H) as (before & q & after & -> & Hb & Hm & Hmin).
    exists (p :: before), q, after. simpl. repeat split; auto.
    intros q' [<-|Hin]; [apply search_none; exact S | apply Hb; exact Hin].
Qed.

Lemma first_search_none ic ps text :
  first_search ic ps text = None ->
  forall p, In p ps -> forall i, no_match_at ic p text i.
Proof.
  induction ps as [|p ps IH]; simpl; [tauto|].
  destruct (search ic p text) as [m'|] eqn:S; [discriminate|].
  intros H q [<-|Hin]; [apply search_none; exact S | apply IH; auto].
Qed.

Lemma run_lit ic l rs : forall s pos k e k',
  run ic (lit l ++ rs) s pos k e k' <->
  exists s', lit_prefix ic l s = Some s' /\
             run ic rs s' (pos + String.length l) k e k'.
Proof.
  induction l as [|c l IH]; intros s pos k e k'; simpl.
  - rewrite Nat.add_0_r. split.
    + intros H. exists s. auto.
    + intros (s' & H & Hr). injection H as ->. exact Hr.
  - split.
    + intros H. inversion H; subst.
      match goal with Hc : chr_eq _ _ _ = true |- _ => rewrite Hc end.
      match goal with Hr : run _ _ _ _ _ _ _ |- _ => apply IH in Hr;
        destruct Hr as (s' & Hp & Hr) end.
      exists s'. rewrite Nat.add_succ_r. auto.
    + intros (s' & Hp & Hr). destruct s as [|x s]; [discriminate|].
      destruct (chr_eq ic c x) eqn:E; [|discriminate].
      constructor; [exact E|]. apply IH. exists s'.
      rewrite Nat.add_succ_r in Hr. auto.
Qed.

Lemma run_rep_inv ic cls lo hi rs s pos k e k' :
  run ic (Rep cls lo hi :: rs) s pos k e k' ->
  exists taken s',
    s = (taken ++ s')%string /\ all_chars cls taken = true /\
    lo <= String.length taken /\ within (String.length taken) hi /\
    run ic rs s' (pos + String.length taken) k e k'.
Proof. intros H. inversion H; subst. eauto 10. Qed.

Lemma run_open_inv ic rs s pos k e k' :
  run ic (GOpen :: rs) s pos k e k' -> run ic rs s pos (open_group pos k) e k'.
Proof. intros H. inversion H; subst. assumption. Qed.

Lemma run_close_inv ic rs s pos k e k' :
  run ic (GClose :: rs) s pos k e k' -> run ic rs s pos (close_group pos k) e k'.
Proof. intros H. inversion H; subst. assumption. Qed.

Lemma run_nil_inv ic s pos k e k' :
  run ic [] s pos k e k' -> e = pos /\ k' = k.
Proof. intros H. inversion H; subst. auto. Qed.

Lemma same_ic_length a b : same_ic a b -> String.length a = String.length b.
Proof.
  unfold same_ic, lower. revert b.
  induction a as [|x a IH]; intros [|y b] H; simpl in *;
    try discriminate; [reflexivity|].
  injection H as _ H. f_equal. auto.
Qed.

(** The text of an optional character. *)
Lemma opt_text c (t : string) :
  all_chars (is_char c) t = true -> String.length t <= 1 ->
  t = "" \/ t = String c "".
Proof.
  destruct t as [|x [|y t]]; simpl; intros H L; [auto| |lia].
  right. unfold is_char in H. rewrite andb_true_r in H.
  apply Ascii.eqb_eq in H. now subst.
Qed.

Lemma nonempty_length (t : string) : 1 <= String.length t <-> t <> "".
Proof. destruct t; simpl; split; intros; try lia; congruence. Qed.

(** A match of a summary pattern is an occurrence in the sense of the
    specification, and its group is the amount. *)
Lemma summary_match_occurrence label text i m :
  matches_at true (summary_pattern label) text i m ->
  summary_occurrence label text i (group text m 1).
Proof.
  intros (pre & s & k' & -> & Hlen & Hrun & Hst & Hg).
  unfold summary_pattern, numeric_run, star, opt, plus in Hrun.
  apply run_lit in Hrun. destruct Hrun as (s1 & Hp & Hrun).
  apply lit_prefix_ic in Hp. destruct Hp as (lab & -> & Hlab).
  simpl app in Hrun.
  apply run_rep_inv in Hrun. destruct Hrun as (mid & s2 & -> & Hmid & _ & _ & Hrun).
  apply run_rep_inv in Hrun. destruct Hrun as (dol & s3 & -> & Hdol & _ & Hd1 & Hrun).
  apply run_open_inv in Hrun.
  apply run_rep_inv in Hrun. destruct Hrun as (a & s4 & -> & Ha & Ha1 & _ & Hrun).
  apply run_rep_inv in Hrun. destruct Hrun as (d & s5 & -> & Hd & _ & Hd2 & Hrun).
  apply run_rep_inv in Hrun. destruct Hrun as (b & rest & -> & Hb & _ & _ & Hrun).
  apply run_close_inv in Hrun. apply run_nil_inv in Hrun.
  destruct Hrun as [He Hk]. subst k'. simpl in Hg, Hd1, Hd2.
  unfold group. rewrite Hg. simpl nth.
  pose proof (same_ic_length Hlab) as Hll.
  exists pre, lab, mid, dol, rest.
  assert (Hspan : span_text
            (pre ++ lab ++ mid ++ dol ++ a ++ d ++ b ++ rest)%string
            (i + String.length label + String.length mid + String.length dol,
             i + String.length label + String.length mid + String.length dol
             + String.length a + String.length d + String.length b)
          = (a ++ d ++ b)%string).
  { replace (pre ++ lab ++ mid ++ dol ++ a ++ d ++ b ++ rest)%string
      with ((pre ++ lab ++ mid ++ dol) ++ (a ++ d ++ b) ++ rest)%string
      by (now rewrite !append_assoc).
    replace (i + String.length label + String.length mid + String.length dol)
      with (String.length (pre ++ lab ++ mid ++ dol))
      by (rewrite !length_append; lia).
    replace (String.length (pre ++ lab ++ mid ++ dol) + String.length a
             + String.length d + String.length b)
      with (String.length (pre ++ lab ++ mid ++ dol)
            + String.length (a ++ d ++ b))
      by (rewrite !length_append; lia).
    apply span_text_middle. }
  rewrite Hspan.
  repeat split; auto.
  - now rewrite !append_assoc.
  - apply opt_text; auto.
  - exists a, d, b. repeat split; auto.
    + apply nonempty_length; exact Ha1.
    + apply opt_text; auto.
Qed.


(** The same correspondence for the account-number patterns. *)
Lemma account_match_occurrence label text i m :
  matches_at true (lit label ++ masked_number) text i m ->
  account_occurrence label text i (group text m 1).
Proof.
  intros (pre & s & k' & -> & Hlen & Hrun & Hst & Hg).
  unfold masked_number, star, plus in Hrun.
  apply run_lit in Hrun. destruct Hrun as (s1 & Hp & Hrun).
  apply lit_prefix_ic in Hp. destruct Hp as (lab & -> & Hlab).
  apply run_rep_inv in Hrun. destruct Hrun as (ws & s2 & -> & Hws & _ & _ & Hrun).
  apply run_open_inv in Hrun.
  apply run_rep_inv in Hrun. destruct Hrun as (st & s3 & -> & Hs & Hs1 & _ & Hrun).
  apply run_rep_inv in Hrun. destruct Hrun as (dg & rest & -> & Hd & Hd1 & _ & Hrun).
  apply run_close_inv in Hrun. apply run_nil_inv in Hrun.
  destruct Hrun as [He Hk]. subst k'. simpl in Hg.
  unfold group. rewrite Hg. simpl nth.
  pose proof (same_ic_length Hlab) as Hll.
  exists pre, lab, ws, rest.
  assert (Hspan : span_text (pre ++ lab ++ ws ++ st ++ dg ++ rest)%string
            (i + String.length label + String.length ws,
             i + String.length label + String.length ws
             + String.length st + String.length dg)
          = (st ++ dg)%string).
  { replace (pre ++ lab ++ ws ++ st ++ dg ++ rest)%string
      with ((pre ++ lab ++ ws) ++ (st ++ dg) ++ rest)%string
      by (now rewrite !append_assoc).
    replace (i + String.length label + String.length ws)
      with (String.length (pre ++ lab ++ ws))
      by (rewrite !length_append; lia).
    replace (String.length (pre ++ lab ++ ws) + String.length st
             + String.length dg)
      with (String.length (pre ++ lab ++ ws) + String.length (st ++ dg))
      by (rewrite !length_append; lia).
    apply span_text_middle. }
  rewrite Hspan.
  repeat split; auto.
  - now rewrite !append_assoc.
  - exists st, dg. repeat split; auto; apply nonempty_length; assumption.
Qed.


End ReFacts.

(* ------------------------------------------------------------------ *)
(** ** The transaction table *)

Module TableFacts.

Lemma last_opt_app {A : Type} (a b : list A) :
  last_opt (a ++ b) =
  match last_opt b with
  | None => last_opt a
  | Some y => Some y
  end.
Proof.
  induction a as [|x a IH]; simpl.
  - destruct (last_opt b); reflexivity.
  - rewrite IH. destruct (last_opt b); reflexivity.
Qed.

Lemma truthy_opt_some (o : option string) : truthy_opt o = true -> o <> None.
Proof. destruct o; simpl; intros H; [discriminate | discriminate]. Qed.

Lemma retained_dated_or_described tx :
  retained tx = true -> dated_or_described tx.
Proof.
  unfold retained, dated_or_described. intros H.
  apply orb_true_iff in H. destruct H as [H|H];
    [left | right]; apply truthy_opt_some; exact H.
Qed.

Lemma parse_row_blank cm acc r :
  blank_row r = true -> parse_row cm acc r = Ok acc.
Proof. unfold parse_row. intros ->. reflexivity. Qed.

Lemma parse_row_keeps cm acc r out :
  Forall dated_or_described acc ->
  parse_row cm acc r = Ok out -> Forall dated_or_described out.
Proof.
  unfold parse_row. intros Hacc H.
  destruct (blank_row r); [injection H as <-; exact Hacc|].
  destruct (build_trans cm r) as [tx|e]; simpl in H; [|discriminate].
  destruct (retained tx) eqn:E; injection H as <-; [|exact Hacc].
  apply Forall_app. split; [exact Hacc|].
  constructor; [|constructor]. apply retained_dated_or_described. exact E.
Qed.

Lemma parse_rows_keep cm rows : forall acc out,
  Forall dated_or_described acc ->
  parse_rows cm acc rows = Ok out -> Forall dated_or_described out.
Proof.
  induction rows as [|r rows IH]; intros acc out Hacc H; simpl in H.
  - injection H as <-. exact Hacc.
  - destruct (parse_row cm acc r) as [acc'|e] eqn:E; simpl in H; [|discriminate].
    eapply IH; [|exact H]. eapply parse_row_keeps; eauto.
Qed.

Lemma parse_rows_skip_blank cm r post pre : forall acc,
  blank_row r = true ->
  parse_rows cm acc (pre ++ r :: post) = parse_rows cm acc (pre ++ post).
Proof.
  induction pre as [|x pre IH]; intros acc Hr; simpl.
  - rewrite (parse_row_blank cm acc r Hr). reflexivity.
  - destruct (parse_row cm acc x) as [acc'|e]; simpl; [apply IH; exact Hr|].
    reflexivity.
Qed.

Lemma scan_tables_last ts : forall txs out,
  scan_tables txs ts = Ok out ->
  match last_opt (filter qualifies ts) with
  | None => out = txs
  | Some t => parse_transaction_table t = Ok out
  end /\
  Forall (fun t => exists r, parse_transaction_table t = Ok r)
         (filter qualifies ts).
Proof.
  induction ts as [|t ts IH]; intros txs out H; simpl in H.
  - injection H as <-. simpl. auto.
  - unfold scan_table in H. simpl filter.
    destruct (qualifies t) eqn:Q.
    + destruct (parse_transaction_table t) as [txs'|e] eqn:P; simpl in H;
        [|discriminate].
      destruct (IH _ _ H) as [Hl Hall]. simpl last_opt.
      destruct (last_opt (filter qualifies ts)).
      * split; [exact Hl|]. constructor; eauto.
      * subst out. split; [exact P|]. constructor; eauto.
    + simpl in H. apply IH. exact H.
Qed.

Lemma scan_pages_last pages : forall text txs r,
  scan_pages text txs pages = Ok r ->
  match last_opt (accepted_tables pages) with
  | None => snd r = txs
  | Some t => parse_transaction_table t = Ok (snd r)
  end /\
  Forall (fun t => exists r, parse_transaction_table t = Ok r)
         (accepted_tables pages).
Proof.
  unfold accepted_tables, all_tables.
  induction pages as [|p pages IH]; intros text txs r H; simpl in H.
  - injection H as <-. simpl. auto.
  - destruct (scan_tables txs (page_tables p)) as [txs'|e] eqn:S; simpl in H;
      [|discriminate].
    destruct (scan_tables_last _ _ S) as [Hl1 Ha1].
    destruct (IH _ _ _ H) as [Hl2 Ha2].
    simpl flat_map. rewrite filter_app, last_opt_app. split.
    + destruct (last_opt (filter qualifies (flat_map page_tables pages)));
        [exact Hl2|].
      rewrite Hl2.
      destruct (last_opt (filter qualifies (page_tables p))); assumption.
    + apply Forall_app. auto.
Qed.

End TableFacts.

Import StrFacts ReFacts TableFacts.

(* ------------------------------------------------------------------ *)
(** ** The greedy choice of the matcher *)


Module GreedyFacts.

(** *** Case *)







(** *** The longest repetition *)

Section Longest.

Variable R : Type.
Variable cont : string -> nat -> option R.


End Longest.

(** *** Literals *)



(** *** Runs that stop *)



Lemma drop_while_stops p s : stops p (drop_while p s).
Proof.
  induction s as [|c s IH]; simpl; [exact I|].
  destruct (p c) eqn:E; [exact IH | exact E].
Qed.






(** *** The amount *)


Lemma take_while_nonempty p a b :
  a <> "" -> all_chars p a = true -> take_while p (a ++ b) <> "".
Proof.
  destruct a as [|c a]; [congruence|]. simpl. intros _ H.
  apply andb_true_iff in H. destruct H as [-> _]. discriminate.
Qed.





End GreedyFacts.

(* ------------------------------------------------------------------ *)
(** ** What the summary and account patterns capture *)

Module CaptureFacts.

Import GreedyFacts.















(** *** The account number *)







Lemma stops_app_head p c (a b : string) :
  p c = false -> stops p (String c a ++ b).
Proof. intros H. exact H. Qed.






End CaptureFacts.

(* ------------------------------------------------------------------ *)
(** ** Worked examples *)

Module Examples.

Example bank_name_known :
  extract_bank_name "Wells Fargo Statement" = Some "WELLS FARGO".
Proof. vm_compute. reflexivity. Qed.

Example bank_name_first_token :
  extract_bank_name "  First National Bank" = Some "First".
Proof. vm_compute. reflexivity. Qed.

Example account_holder_trimmed :
  extract_account_holder ("Account Holder: Jane Q Public" ++ nl)
  = Some "Jane Q Public".
Proof. vm_compute. reflexivity. Qed.

Example strptime_full_month :
  strptime "January 5 2024" Fmt_B_d_Y = Ok (mkDate 2024 1 5).
Proof. vm_compute. reflexivity. Qed.

Example strptime_leap_day :
  strptime "2/29/2024" Fmt_m_d_Y = Ok (mkDate 2024 2 29) /\
  strptime "2/29/2023" Fmt_m_d_Y = Raise ValueError.
Proof. split; vm_compute; reflexivity. Qed.

Example strptime_text_remains :
  strptime "2/29/20245" Fmt_m_d_Y = Raise ValueError.
Proof. vm_compute. reflexivity. Qed.

(** Without a dollar sign the greedy [[^$]*] runs to the end of the text and
    gives back only the last digit. *)
Example summary_without_dollar :
  summary_field "Opening Balance" "Opening Balance: 9,000.00"
  = Some (0 # 1)%Q.
Proof. vm_compute. reflexivity. Qed.

Example table_parsed :
  parse_transaction_table coffee_table
  = Ok [mkTrans (Some "2024-01-05") (Some "Coffee") (Some (-9 # 2)%Q)
                (Some (1000 # 1)%Q) (Some Debit)].
Proof. vm_compute. reflexivity. Qed.

Example short_row_raises :
  parse_transaction_table
    [[Some "Date"; Some "Description"]; [Some "01/05/2024"]]
  = Raise IndexError.
Proof. vm_compute. reflexivity. Qed.

End Examples.

(* ------------------------------------------------------------------ *)
(** ** Properties of the specification *)

Import GreedyFacts CaptureFacts.

(** *** Which table gives the transactions *)

(** The two tests agree on the tables of the sample document. *)
Lemma two_tables_doc_tests_agree :
  Forall (fun t => qualifies t = qualifies_spec t) (all_tables two_tables_doc).
Proof. repeat (apply Forall_cons; [vm_compute; reflexivity|]). apply Forall_nil. Qed.

(** Where the test of the code and the specification's notion agree on the
    tables of a document, the tables the code accepts are the qualifying
    ones. *)
Lemma accepted_tables_qualifying pages :
  Forall (fun t => qualifies t = qualifies_spec t) (all_tables pages) ->
  accepted_tables pages = qualifying_tables pages.
Proof.
  intros A. unfold accepted_tables, qualifying_tables.
  apply filter_ext_in. intros t Hin.
  rewrite Forall_forall in A. exact (A t Hin).
Qed.

(** C1, as stated, fails: on a document with two qualifying tables, on
    whose tables the test of the code agrees with the specification's
    notion of a qualifying table, the transactions are not those parsed
    from the first qualifying table. *)
Lemma first_qualifying_table_does_not_win :
  ~ (forall pages st t1,
       Forall (fun t => qualifies t = qualifies_spec t) (all_tables pages) ->
       1 < length (qualifying_tables pages) ->
       extract_bank_statement pages = Ok st ->
       hd_error (qualifying_tables pages) = Some t1 ->
       parse_transaction_table t1 = Ok (transactions st)).
Proof.
  intros H.
  destruct (extract_bank_statement two_tables_doc) as [st|e] eqn:E;
    [|vm_compute in E; discriminate].
  assert (L : 1 < length (qualifying_tables two_tables_doc))
    by (vm_compute; lia).
  specialize (H two_tables_doc st _ two_tables_doc_tests_agree L E eq_refl).
  vm_compute in E. injection E as <-.
  vm_compute in H. discriminate.
Qed.

(** C1, amended: on a document on whose tables the test of the code agrees
    with the specification's notion of a qualifying table (a header row and
    one more row, and a header cell that contains a token), the
    transactions of the output are those parsed from the last qualifying
    table in page and table order (none when no table qualifies), and
    every qualifying table is parsed on the way. *)
Theorem transactions_from_last_qualifying_table pages st :
  Forall (fun t => qualifies t = qualifies_spec t) (all_tables pages) ->
  extract_bank_statement pages = Ok st ->
  match last_opt (qualifying_tables pages) with
  | None => transactions st = []
  | Some t => parse_transaction_table t = Ok (transactions st)
  end /\
  Forall (fun t => exists txs, parse_transaction_table t = Ok txs)
         (qualifying_tables pages).
Proof.
  intros A. rewrite <- (@accepted_tables_qualifying pages A).
  unfold extract_bank_statement. intros H.
  destruct (scan_pages "" [] pages) as [r|e] eqn:S; simpl in H; [|discriminate].
  injection H as <-. simpl transactions.
  exact (scan_pages_last _ _ _ S).
Qed.

Lemma transactions_from_last_qualifying_table_witness :
  Forall (fun t => qualifies t = qualifies_spec t)
         (all_tables two_tables_doc) /\
  exists st,
    extract_bank_statement two_tables_doc = Ok st /\
    parse_transaction_table
      [[Some "date"; Some "amount"]; [Some "01/06/2024"; Some "$5.00"]]
    = Ok (transactions st).
Proof.
  split; [exact two_tables_doc_tests_agree|].
  destruct (extract_bank_statement two_tables_doc) as [st|e] eqn:E;
    [|vm_compute in E; discriminate].
  exists st. split; [reflexivity|].
  exact (proj1 (@transactions_from_last_qualifying_table
                  two_tables_doc st two_tables_doc_tests_agree E)).
Defined.

(** *** Which tables qualify *)

Lemma prefix_refl (s : string) : String.prefix s s = true.
Proof. induction s as [|c s IH]; simpl; [reflexivity|].
  destruct (ascii_dec c c); [exact IH | congruence]. Qed.

Lemma contains_refl (s : string) : contains s s = true.
Proof.
  destruct s as [|c s']; [reflexivity|].
  change (contains (String c s') (String c s'))
    with (String.prefix (String c s') (String c s')
          || contains (String c s') s').
  rewrite prefix_refl. reflexivity.
Qed.

(** A header cell equal to a token contains it, so a table the code accepts
    also qualifies in the words of the specification. *)
Lemma qualifies_implies_spec t : qualifies t = true -> qualifies_spec t = true.
Proof.
  destruct t as [|header [|r rest]]; unfold qualifies, qualifies_spec;
    try discriminate.
  intros H. apply existsb_exists in H. destruct H as (tok & Htok & Hm).
  unfold mem in Hm. apply existsb_exists in Hm. destruct Hm as (h & Hh & E).
  apply String.eqb_eq in E. subst h.
  apply in_map_iff in Hh. destruct Hh as (c & Hc & Hin).
  apply existsb_exists. exists c. split; [exact Hin|].
  apply existsb_exists. exists tok. split; [exact Htok|].
  rewrite Hc. apply contains_refl.
Qed.

(** C2: the code tests whether a token is an element of the list of header
    cells, so a header cell that only contains a token does not qualify the
    table, although the column mapping of [parse_transaction_table] would
    find its columns and parse its row. *)
Theorem qualifies_needs_exact_header :
  qualifies long_header_table = false /\
  qualifies_spec long_header_table = true /\
  build_col_map [Some "Transaction Date"; Some "Amount ($)"]
  = mkColMap (Some 0) None (Some 1) None /\
  (exists tx, parse_transaction_table long_header_table = Ok [tx]) /\
  extract_bank_statement [mkPage None [long_header_table]]
  = Ok (mkStatement None None None (mkPeriod None None)
                    (mkSummary None None None None) []).
Proof.
  repeat split; try (vm_compute; reflexivity).
  eexists. vm_compute. reflexivity.
Qed.

(** *** Retained rows *)

(** C3: every transaction of a parsed table has a date or a description; a
    data row whose cells are all empty or absent adds nothing, the table
    parses as it does without the row; and the table with the four headers
    and one all-empty row gives no transaction. *)
Theorem parsed_rows_dated_or_described :
  (forall t txs,
     parse_transaction_table t = Ok txs -> Forall dated_or_described txs) /\
  (forall header pre r post,
     blank_row r = true ->
     parse_transaction_table (header :: pre ++ r :: post)
     = parse_transaction_table (header :: pre ++ post)) /\
  parse_transaction_table empty_row_table = Ok [].
Proof.
  split; [|split].
  - intros t txs H. destruct t as [|header [|r rows]];
      try (injection H as <-; constructor).
    unfold parse_transaction_table in H.
    eapply parse_rows_keep; [|exact H]. constructor.
  - intros header pre r post Hr.
    destruct pre as [|x pre].
    + simpl. rewrite (parse_row_blank _ [] r Hr). simpl.
      destruct post; reflexivity.
    + exact (@parse_rows_skip_blank (build_col_map header) r post (x :: pre)
                                    [] Hr).
  - vm_compute. reflexivity.
Qed.

Lemma parsed_rows_dated_or_described_witness :
  Forall dated_or_described
    [mkTrans (Some "2024-01-05") (Some "Coffee") (Some (-9 # 2)%Q)
             (Some (1000 # 1)%Q) (Some Debit)] /\
  parse_transaction_table
    ([Some "Date"; Some "Description"] :: [] ++ [None; Some ""] :: [])
  = parse_transaction_table ([Some "Date"; Some "Description"] :: [] ++ []).
Proof.
  split.
  - apply (proj1 parsed_rows_dated_or_described coffee_table).
    vm_compute. reflexivity.
  - apply (proj1 (proj2 parsed_rows_dated_or_described)). reflexivity.
Defined.

(** *** Dates *)






(** *** Amounts *)

(** C5: an amount cell whose numeric run has no digit makes [float] raise,
    and [parse_amount] lets the [ValueError] out, where [extract_summary]
    catches it for the same conversion; the other cells parse as the
    specification says. *)
Theorem parse_amount_raises_without_digit :
  parse_amount "," = Raise ValueError /\
  parse_transaction_table
    [[Some "Date"; Some "Amount"]; [Some "01/05/2024"; Some ","]]
  = Raise ValueError /\
  summary_field "Total Credits" "Total Credits ," = None /\
  parse_amount "-$89.99" = Ok (Some (-8999 # 100)%Q, Some Debit) /\
  parse_amount "$1,000.00" = Ok (Some (1000 # 1)%Q, Some Credit) /\
  parse_amount "n/a" = Ok (None, None).
Proof. repeat split; vm_compute; reflexivity. Qed.

(** *** Summary fields *)


(** *** Statement period *)


(** *** Account number *)



(** *** Rows with an empty description *)

Lemma normalize_date_empty : normalize_date "" = Ok "".
Proof. vm_compute. reflexivity. Qed.

(** C10: a row is kept on the truth value of its date and description, not
    on their presence: when the description column holds the empty string
    and the date column is unmapped or holds an empty or absent cell, the
    dictionary built for the row has the description [""], which is present,
    and the row adds no transaction. *)
Theorem empty_description_row_dropped (cm : col_map) (r : row)
    (acc : list transaction) (j : nat) :
  col_description cm = Some j ->
  nth_error r j = Some (Some "") ->
  (col_date cm = None \/
   exists i, col_date cm = Some i /\
             (nth_error r i = Some None \/ nth_error r i = Some (Some ""))) ->
  (forall t, build_trans cm r = Ok t ->
             tx_description t = Some "" /\ tx_description t <> None /\
             retained t = false) /\
  (forall out, parse_row cm acc r = Ok out -> out = acc).
Proof.
  intros Hj Hcell Hdate.
  assert (B : forall t, build_trans cm r = Ok t ->
                        tx_description t = Some "" /\ retained t = false).
  { intros t H. unfold build_trans in H. rewrite Hj in H.
    assert (D : column_value (col_date cm) r None
                  (fun s => do d <- normalize_date s; Ok (Some d)) = Ok None
                \/ column_value (col_date cm) r None
                  (fun s => do d <- normalize_date s; Ok (Some d))
                   = Ok (Some "")).
    { destruct Hdate as [Hn|(i & Hs & [Hi|Hi])].
      - left. rewrite Hn. reflexivity.
      - right. rewrite Hs. unfold column_value, cell_at. rewrite Hi.
        cbv beta iota delta [bind or_empty].
        rewrite normalize_date_empty. reflexivity.
      - right. rewrite Hs. unfold column_value, cell_at. rewrite Hi.
        cbv beta iota delta [bind or_empty].
        rewrite normalize_date_empty. reflexivity. }
    assert (E : column_value (Some j) r None (fun s => Ok (Some (strip s)))
                = Ok (Some "")).
    { unfold column_value, cell_at. rewrite Hcell. reflexivity. }
    rewrite E in H.
    destruct (column_value (col_amount cm) r (None, None) parse_amount)
      as [a|e]; [|destruct D as [D|D]; rewrite D in H; discriminate].
    destruct (column_value (col_balance cm) r None parse_balance)
      as [b|e]; [|destruct D as [D|D]; rewrite D in H; discriminate].
    destruct D as [D|D]; rewrite D in H; simpl in H; injection H as <-;
      split; reflexivity. }
  split.
  - intros t H. destruct (B t H) as [B1 B2]. repeat split; auto.
    rewrite B1. discriminate.
  - intros out H. unfold parse_row in H.
    destruct (blank_row r); [injection H as <-; reflexivity|].
    destruct (build_trans cm r) as [t|e] eqn:T; simpl in H; [|discriminate].
    destruct (B t eq_refl) as [_ B2]. rewrite B2 in H.
    injection H as <-. reflexivity.
Qed.

Lemma empty_description_row_dropped_witness :
  blank_row [Some ""; Some ""; Some "5.00"] = false /\
  (forall t,
     build_trans (mkColMap (Some 0) (Some 1) (Some 2) None)
                 [Some ""; Some ""; Some "5.00"] = Ok t ->
     tx_description t = Some "" /\ tx_description t <> None /\
     retained t = false) /\
  (forall out,
     parse_row (mkColMap (Some 0) (Some 1) (Some 2) None) []
               [Some ""; Some ""; Some "5.00"] = Ok out -> out = []).
Proof.
  split; [reflexivity|].
  apply (@empty_description_row_dropped
           (mkColMap (Some 0) (Some 1) (Some 2) None)
           [Some ""; Some ""; Some "5.00"] [] 1).
  - reflexivity.
  - reflexivity.
  - right. exists 0. split; [reflexivity|]. right. reflexivity.
Defined.

(** *** Character classes and case *)

Ltac all_ascii x :=
  destruct x as [[] [] [] [] [] [] [] []]; split; vm_compute; reflexivity.

(** The classes of the patterns matched with [re.IGNORECASE]. *)
Lemma class_case_closed :
  Forall case_closed
    [is_space; is_digit; name_chars; is_char "*"; is_char "$"; is_char ".";
     not_dollar; digit_or_comma].
Proof.
  repeat (apply Forall_cons; [intros x; all_ascii x|]). apply Forall_nil.
Qed.

(** *** Decryption *)

Module DecryptFacts.

Import Decrypt.

(** C9: when the bytes decode, the reader opens the file and reports it
    encrypted, and [decrypt] answers that the password did not decrypt it,
    [decrypt_pdf] returns the failure dictionary with the incorrect-password
    message and [is_encrypted] set.  Every exception of the library is
    turned into a dictionary by the two handlers, so the function returns a
    [response] in all cases. *)
Theorem wrong_password_reported
    (pdf_bytes path reader : Type)
    (b64decode : string -> attempt pdf_bytes)
    (write_temp : pdf_bytes -> attempt path)
    (PdfReader : path -> attempt reader)
    (reader_is_encrypted : reader -> bool)
    (reader_decrypt : reader -> string -> attempt password_type)
    (rewrite_pages : reader -> path -> attempt (string * nat))
    (input_base64 password : string) (bytes : pdf_bytes) (input_path : path)
    (rd : reader) :
  b64decode input_base64 = Done bytes ->
  write_temp bytes = Done input_path ->
  PdfReader input_path = Done rd ->
  reader_is_encrypted rd = true ->
  reader_decrypt rd password = Done NOT_DECRYPTED ->
  decrypt_pdf b64decode write_temp PdfReader reader_is_encrypted
              reader_decrypt rewrite_pages input_base64 password
  = Failure "Incorrect password. Please check and try again." true.
Proof.
  intros Hb Hw Hr He Hd.
  unfold decrypt_pdf, decrypt_inner, decrypt_body.
  rewrite Hb. simpl. rewrite Hw. simpl. rewrite Hr. simpl.
  rewrite He, Hd. reflexivity.
Qed.

Lemma wrong_password_reported_witness :
  decrypt_pdf (fun s => Done s) (fun b => Done b) (fun p => Done p)
              (fun _ => true) toy_decrypt
              (fun rd _ => Done (rd, 1)) "c2VjcmV0" "guess"
  = Failure "Incorrect password. Please check and try again." true.
Proof.
  apply (@wrong_password_reported string string string
           (fun s => Done s) (fun b => Done b) (fun p => Done p)
           (fun _ => true) toy_decrypt (fun rd _ => Done (rd, 1))
           "c2VjcmV0" "guess" "c2VjcmV0" "c2VjcmV0" "c2VjcmV0");
    reflexivity.
Defined.

End DecryptFacts.
